(** * intern3-docs: the docs sync script and the shared layout configuration

    A shallow embedding of [sparse-clone.ts] and [src/app/layout.config.tsx].

    The script is a straight line of Node.js library calls.  It is embedded
    as a program in a small monad over

    - a file system (a tree of directories and files), on which
      [existsSync], [rmSync], [mkdirSync] and [cpSync] act;
    - a trace of the library calls made and of what was printed;
    - an outcome that is a value, a thrown error, or the end of the process
      ([process.exit]).

    What the script cannot decide is a parameter, the [World]: the clock,
    the temporary and the working directory, what every external command
    does to the file system and whether it fails, and whether the operating
    system refuses a file-system call. *)

From Stdlib Require Import Ascii.
From stdpp Require Import gmap strings list fin_maps pretty.

Set Default Proof Using "Type".
Open Scope string_scope.
Open Scope Z_scope.
Open Scope list_scope.

(* ===================================================================== *)
(** * The file system *)
(* ===================================================================== *)

Module FS.

(** A path is the list of its components, from the root. *)
Abbreviation path := (list string).

(** A file holds bytes; a directory maps names to its entries. *)
#[warnings="-register-all"]
Inductive node : Type :=
  | File (data : string)
  | Dir (entries : gmap string node).

(** The empty directory. *)
Definition empty_dir : node := Dir ∅.

(** The entry at a path, if there is one. *)
Fixpoint lookup_path (p : path) (n : node) : option node :=
  match p with
  | [] => Some n
  | x :: q =>
      match n with
      | File _ => None
      | Dir es =>
          match es !! x with
          | Some c => lookup_path q c
          | None => None
          end
      end
  end.

(** [fs.existsSync]: true when something is at the path. *)
Definition exists_path (p : path) (n : node) : bool :=
  bool_decide (is_Some (lookup_path p n)).

(** [fs.rmSync(p, { recursive: true, force: true })]: the entry at [p] and
    everything below it goes; a path that is not there is no error. *)
Fixpoint rm_path (p : path) (n : node) : node :=
  match p with
  | [] => n
  | x :: q =>
      match n with
      | File _ => n
      | Dir es =>
          match q with
          | [] => Dir (delete x es)
          | _ :: _ => Dir (alter (rm_path q) x es)
          end
      end
  end.

(** [fs.mkdirSync(p, { recursive: true })]: every missing directory on the
    way is made; a file on the way is an error. *)
Fixpoint mkdirp (p : path) (n : node) : option node :=
  match p with
  | [] => match n with Dir _ => Some n | File _ => None end
  | x :: q =>
      match n with
      | File _ => None
      | Dir es =>
          match mkdirp q (default empty_dir (es !! x)) with
          | Some c => Some (Dir (<[x:=c]> es))
          | None => None
          end
      end
  end.

(** Writing an entry at a path whose parent directory is there. *)
Fixpoint put (p : path) (v : node) (n : node) : option node :=
  match p with
  | [] => Some v
  | x :: q =>
      match n with
      | File _ => None
      | Dir es =>
          match q with
          | [] => Some (Dir (<[x:=v]> es))
          | _ :: _ =>
              match es !! x with
              | Some c =>
                  match put q v c with
                  | Some c' => Some (Dir (<[x:=c']> es))
                  | None => None
                  end
              | None => None
              end
          end
      end
  end.

(** Copying a tree over a tree that is already there: files of the source
    replace files of the destination, directories are merged, entries only
    the destination has stay; a file over a directory or a directory over a
    file is an error. *)
Fixpoint merge (s d : node) {struct s} : option node :=
  match s, d with
  | File b, File _ => Some (File b)
  | File _, Dir _ => None
  | Dir _, File _ => None
  | Dir es, Dir ed =>
      Dir <$>
        map_fold
          (fun k s' (acc : option (gmap string node)) =>
             match acc with
             | None => None
             | Some a =>
                 match ed !! k with
                 | None => Some (<[k:=s']> a)
                 | Some d' =>
                     match merge s' d' with
                     | Some m => Some (<[k:=m]> a)
                     | None => None
                     end
                 end
             end)
          (Some ed) es
  end.

(** The directory a path lies in. *)
Definition parent (p : path) : path := removelast p.

(** [fs.cpSync(src, dst, { recursive: true })]: the source must be there
    and must not contain the destination; the directories above the
    destination are made; the tree is written, merged into what the
    destination already holds. *)
Definition cp_tree (src dst : path) (n : node) : option node :=
  match lookup_path src n with
  | None => None
  | Some s =>
      if bool_decide (src `prefix_of` dst) then None
      else
        match mkdirp (parent dst) n with
        | None => None
        | Some n1 =>
            match lookup_path dst n1 with
            | None => put dst s n1
            | Some d =>
                match merge s d with
                | Some m => put dst m n1
                | None => None
                end
            end
        end
  end.

(** Two paths neither of which lies at or below the other. *)
Definition apart (p q : path) : Prop :=
  ¬ p `prefix_of` q ∧ ¬ q `prefix_of` p.

(** [path.join(p, c)] *)
Definition join (p : path) (c : string) : path := p ++ [c].

(** A path as the text the script prints and passes to git. *)
Definition path_str (p : path) : string :=
  foldr (fun c acc => "/" +:+ c +:+ acc) EmptyString p.

End FS.

Export FS.

(* ===================================================================== *)
(** * Errors, calls and the trace *)
(* ===================================================================== *)

(** The library calls of the script that act on the world. *)
Inductive call : Type :=
  | CNow                              (* Date.now() *)
  | CExec (cmd : string) (dir : path) (* execSync(cmd, { cwd: dir }) *)
  | CRm (p : path)                    (* rmSync(p, { recursive, force }) *)
  | CMkdir (p : path)                 (* mkdirSync(p, { recursive }) *)
  | CCp (src dst : path).             (* cpSync(src, dst, { recursive }) *)

(** What can be thrown. *)
Inductive error : Type :=
  | ExecError (cmd : string)          (* execSync: the command failed *)
  | FsError (c : call)                (* a file-system call failed *)
  | JsError (message : string).       (* new Error(message) *)

(** An argument of [console.log] or [console.error]. *)
Inductive jsval : Type :=
  | VStr (s : string)
  | VNum (n : Z)
  | VErr (e : error).

(** What a run leaves behind, in order: the calls with their success, and
    the lines printed to standard output and to standard error. *)
Inductive event : Type :=
  | EvCall (c : call) (ok : bool)
  | EvLog (args : list jsval)
  | EvError (args : list jsval).

#[global] Instance call_eq_dec : EqDecision call.
Proof. solve_decision. Defined.
#[global] Instance error_eq_dec : EqDecision error.
Proof. solve_decision. Defined.
#[global] Instance jsval_eq_dec : EqDecision jsval.
Proof. solve_decision. Defined.
#[global] Instance event_eq_dec : EqDecision event.
Proof. solve_decision. Defined.

(* ===================================================================== *)
(** * The world and the monad of the script *)
(* ===================================================================== *)

(** The world the script runs in. *)
Record World : Type := {
  (** [os.tmpdir()] *)
  tmpdir : path;
  (** the working directory of the process; relative paths start here *)
  cwd : path;
  (** [Date.now()], milliseconds *)
  now : Z;
  (** an external command, run in a directory on a file system: the file
      system it leaves, and its output, or [None] when it fails *)
  exec : string → path → node → node * option string;
  (** whether the operating system refuses a file-system call *)
  fault : call → node → bool;
}.

Record State : Type := {
  fs : node;
  trace : list event;
}.

(** How a computation ends: with a value, with an error on its way up, or
    with the process gone. *)
Inductive outcome (A : Type) : Type :=
  | Normal (a : A)
  | Thrown (e : error)
  | Exited (code : Z).
Arguments Normal {A} a.
Arguments Thrown {A} e.
Arguments Exited {A} code.

Definition M (A : Type) : Type := State → outcome A * State.

Definition ret {A} (a : A) : M A := fun s => (Normal a, s).

Definition bind {A B} (m : M A) (f : A → M B) : M B :=
  fun s =>
    match m s with
    | (Normal a, s') => f a s'
    | (Thrown e, s') => (Thrown e, s')
    | (Exited c, s') => (Exited c, s')
    end.

#[global] Instance M_ret : MRet M := @ret.
#[global] Instance M_bind : MBind M := fun A B f m => bind m f.

(** [throw e] *)
Definition throw {A} (e : error) : M A := fun s => (Thrown e, s).

(** [process.exit(code)]: nothing of the program runs after it. *)
Definition process_exit {A} (code : Z) : M A := fun s => (Exited code, s).

(** [try { body } catch (e) { handler }] *)
Definition try_catch {A} (body : M A) (handler : error → M A) : M A :=
  fun s =>
    match body s with
    | (Thrown e, s') => handler e s'
    | r => r
    end.

(** [try { body } finally { fin }]: the finally block runs when the body
    returns and when it throws; it does not run when the process has
    exited in the body.  What the finally block throws replaces the
    outcome of the body. *)
Definition try_finally {A} (body : M A) (fin : M unit) : M A :=
  fun s =>
    match body s with
    | (Exited c, s') => (Exited c, s')
    | (o, s') =>
        match fin s' with
        | (Normal _, s'') => (o, s'')
        | (Thrown e, s'') => (Thrown e, s'')
        | (Exited c, s'') => (Exited c, s'')
        end
    end.

(** [try { body } catch (e) { handler } finally { fin }] *)
Definition try_catch_finally {A}
    (body : M A) (handler : error → M A) (fin : M unit) : M A :=
  try_finally (try_catch body handler) fin.

Definition emit (e : event) (s : State) : State :=
  {| fs := fs s; trace := trace s ++ [e] |}.

Definition console_log (args : list jsval) : M unit :=
  fun s => (Normal (), emit (EvLog args) s).

Definition console_error (args : list jsval) : M unit :=
  fun s => (Normal (), emit (EvError args) s).

(** [String.prototype.trim], on the ASCII white space. *)
Fixpoint ltrim (s : string) : string :=
  match s with
  | EmptyString => EmptyString
  | String a r => if Ascii.is_space a then ltrim r else s
  end.

Definition trim (s : string) : string :=
  String.rev (ltrim (String.rev (ltrim s))).

Fixpoint count_newlines (s : string) : Z :=
  match s with
  | EmptyString => 0
  | String a r =>
      (if Ascii.eqb a "010"%char then 1 else 0) + count_newlines r
  end.

(** [s.split("\n").length] *)
Definition split_length (s : string) : Z := 1 + count_newlines s.

(* ===================================================================== *)
(** * The script *)
(* ===================================================================== *)

Section Script.

Context (W : World).

(** [Date.now()] *)
Definition date_now : M Z :=
  fun s => (Normal (now W), emit (EvCall CNow true) s).

(** [existsSync(p)] never throws. *)
Definition existsSync (p : path) : M bool :=
  fun s => (Normal (exists_path p (fs s)), s).

(** [execSync(cmd, { cwd: dir })]: the output of the command; a failing
    command throws. *)
Definition execSync (cmd : string) (dir : path) : M string :=
  fun s =>
    match exec W cmd dir (fs s) with
    | (n, Some out) =>
        (Normal out,
         {| fs := n; trace := trace s ++ [EvCall (CExec cmd dir) true] |})
    | (n, None) =>
        (Thrown (ExecError cmd),
         {| fs := n; trace := trace s ++ [EvCall (CExec cmd dir) false] |})
    end.

(** A file-system call: refused by the operating system, or failing by
    itself, it throws.  The file system is left as it was: what a call
    that fails midway has already written or removed is not part of the
    model, and no statement below is about the file system after a
    failed [cpSync] or [rmSync]. *)
Definition fs_call (c : call) (effect : node → option node) : M unit :=
  fun s =>
    if fault W c (fs s) then (Thrown (FsError c), emit (EvCall c false) s)
    else
      match effect (fs s) with
      | Some n => (Normal (), {| fs := n; trace := trace s ++ [EvCall c true] |})
      | None => (Thrown (FsError c), emit (EvCall c false) s)
      end.

Definition rmSync (p : path) : M unit :=
  fs_call (CRm p) (fun n => Some (rm_path p n)).

Definition mkdirSync (p : path) : M unit :=
  fs_call (CMkdir p) (mkdirp p).

Definition cpSync (src dst : path) : M unit :=
  fs_call (CCp src dst) (cp_tree src dst).

(** ** The constants of [sparse-clone.ts] *)

Definition REPO_URL : string := "https://github.com/intern3-chat/intern3-chat.git".

(** ["./content/docs"], from the working directory *)
Definition TARGET_DOCS_DIR : path := cwd W ++ ["content"; "docs"].

(** ["./content"], from the working directory *)
Definition CONTENT_DIR : path := cwd W ++ ["content"].

(** [`intern3-docs-clone-${t}`] *)
Definition temp_name (t : Z) : string := "intern3-docs-clone-" +:+ pretty t.

(** [join(tmpdir(), `intern3-docs-clone-${t}`)] *)
Definition temp_dir_at (t : Z) : path := join (tmpdir W) (temp_name t).

Definition dquote : string := String "034"%char EmptyString.

Definition clone_cmd (tempDir : path) : string :=
  "git clone --no-checkout --filter=blob:none --depth=1 --single-branch "
    +:+ REPO_URL +:+ " " +:+ dquote +:+ path_str tempDir +:+ dquote.

Definition config_cmd : string := "git config core.sparseCheckout true".
Definition init_cmd : string := "git sparse-checkout init --cone".
Definition set_cmd : string := "git sparse-checkout set docs".
Definition checkout_cmd : string := "git checkout".
Definition find_temp_cmd : string := "find . -name '.*' -prune -o -type f -print".
Definition find_target_cmd : string := "find ./content/docs -type f".

Definition docs_not_found : error :=
  JsError "Docs folder not found in cloned repository - the repository might not have a docs folder".

(** ** The body of the [try] block *)

(** Lines 14 to 20: a target that is there is removed. *)
Definition clear_target : M unit :=
  console_log [VStr "🚀 Starting optimized sparse clone of docs folder..."];;
  target_exists ← existsSync TARGET_DOCS_DIR;
  if target_exists : bool then
    console_log [VStr "📁 Removing existing docs directory..."];;
    rmSync TARGET_DOCS_DIR
  else ret ().

(** Lines 22 to 58: the repository is cloned without a checkout, the
    sparse checkout is set to [docs], and the checkout is made. *)
Definition clone_steps (tempDir : path) : M unit :=
  console_log [VStr ("📦 Creating optimized sparse clone in: " +:+ path_str tempDir)];;
  execSync (clone_cmd tempDir) (cwd W);;
  execSync config_cmd tempDir;;
  execSync init_cmd tempDir;;
  execSync set_cmd tempDir;;
  console_log [VStr "📋 Checking out only docs folder..."];;
  execSync checkout_cmd tempDir;;
  ret ().

(** Lines 61 to 78: the files of the clone are listed; a failure of the
    listing is caught. *)
Definition list_checked_out (tempDir : path) : M unit :=
  console_log [VStr "🔍 Verifying sparse checkout contents..."];;
  try_catch
    (checkedOut ← execSync find_temp_cmd tempDir;
     console_log [VStr "Files checked out:";
                  VNum (split_length (trim checkedOut));
                  VStr "files"];;
     console_log [VStr "Contents:"; VStr (trim checkedOut)])
    (fun _ => console_log [VStr "Could not list checked out files"]).

(** Lines 95 to 103: the files of the target are listed; a failure of the
    listing is caught. *)
Definition list_target : M unit :=
  try_catch
    (files ← execSync find_target_cmd (cwd W);
     console_log [VStr files];;
     console_log [VStr ("Total files: " +:+ pretty (split_length (trim files)))])
    (fun _ => console_log [VStr "Could not list files, but copy completed successfully"]).

(** Lines 81 to 108: the [docs] folder of the clone is copied to the
    target; without a [docs] folder an error is thrown. *)
Definition copy_steps (tempDir : path) : M unit :=
  let tempDocsDir := join tempDir "docs" in
  docs_exists ← existsSync tempDocsDir;
  if docs_exists : bool then
    console_log [VStr "📋 Copying docs folder to target location..."];;
    mkdirSync CONTENT_DIR;;
    cpSync tempDocsDir TARGET_DOCS_DIR;;
    console_log [VStr "✅ Successfully copied docs folder to ./content/docs"];;
    console_log [VStr "📊 Final result - files in ./content/docs:"];;
    list_target
  else throw docs_not_found.

Definition try_body (tempDir : path) : M unit :=
  clear_target;;
  clone_steps tempDir;;
  list_checked_out tempDir;;
  copy_steps tempDir.

(** Lines 109 to 111 *)
Definition catch_handler (e : error) : M unit :=
  console_error [VStr "❌ Error during sparse clone:"; VErr e];;
  process_exit 1.

(** Lines 112 to 118 *)
Definition cleanup (tempDir : path) : M unit :=
  temp_exists ← existsSync tempDir;
  if temp_exists : bool then
    console_log [VStr "🧹 Cleaning up temporary directory..."];;
    rmSync tempDir
  else ret ().

(** ** [sparseCloneDocs] and the runner *)

(** The function awaits nothing: its body runs to its end when it is
    called.  [Normal] is the promise fulfilled, [Thrown] the promise
    rejected, [Exited] the process gone before the promise settles. *)
Definition sparseCloneDocs : M unit :=
  t ← date_now;
  let tempDir := temp_dir_at t in
  try_catch_finally (try_body tempDir) catch_handler (cleanup tempDir).

(** Lines 122 to 131, the script run by itself:
    [sparseCloneDocs().then(...).catch(...)]. *)
Definition main : M unit :=
  try_catch
    (sparseCloneDocs;;
     console_log [VStr "🎉 Optimized sparse clone completed successfully!"])
    (fun e =>
       console_error [VStr "💥 Script failed:"; VErr e];;
       process_exit 1).

(** The temporary directory of the run. *)
Definition tempDir : path := temp_dir_at (now W).

Definition tempDocsDir : path := join tempDir "docs".

Definition init (n : node) : State := {| fs := n; trace := [] |}.

End Script.

(** The exit status of the process: 0 when the program runs to its end,
    the code given to [process.exit], 1 for an error nothing caught. *)
Definition exit_status {A} (o : outcome A) : Z :=
  match o with
  | Normal _ => 0
  | Thrown _ => 1
  | Exited c => c
  end.

(** A run of the script by itself, on a file system. *)
Definition run (W : World) (n : node) : outcome unit * State := main W (init n).

(** A call of [sparseCloneDocs] by an importing module. *)
Definition call_sparseCloneDocs (W : World) (n : node) : outcome unit * State :=
  sparseCloneDocs W (init n).

(* ===================================================================== *)
(** * Observing a run *)
(* ===================================================================== *)

(** The state in which the [try] block starts: the clock has been read. *)
Definition started (n : node) : State := emit (EvCall CNow true) (init n).

(** The [try] block of a run, alone. *)
Definition attempt (W : World) (n : node) : outcome unit * State :=
  try_body W (tempDir W) (started n).

(** A run up to the test for the [docs] folder of the clone (line 82). *)
Definition checked_out (W : World) (n : node) : outcome unit * State :=
  (clear_target W;; clone_steps W (tempDir W);; list_checked_out W (tempDir W))
    (started n).

(** The calls of a trace, in order, with their success. *)
Fixpoint calls (tr : list event) : list (call * bool) :=
  match tr with
  | [] => []
  | EvCall c ok :: r => (c, ok) :: calls r
  | _ :: r => calls r
  end.

(** The lines the script prints with [console.error].  What git writes
    to the standard error it inherits is not in the trace. *)
Fixpoint stderr (tr : list event) : list (list jsval) :=
  match tr with
  | [] => []
  | EvError args :: r => args :: stderr r
  | _ :: r => stderr r
  end.

(** The two listings made for the log. *)
Definition is_diagnostic (c : call) : bool :=
  match c with
  | CExec cmd _ =>
      String.eqb cmd find_temp_cmd || String.eqb cmd find_target_cmd
  | _ => false
  end.



(** An event that is not the failure of a call the run depends on. *)
Definition essential_ok (e : event) : bool :=
  match e with
  | EvCall c false => is_diagnostic c
  | _ => true
  end.

Definition is_copy (e : event) : bool :=
  match e with
  | EvCall (CCp _ _) true => true
  | _ => false
  end.

(** A successful run: the docs were copied and no call failed, the two
    listings apart. *)
Definition succeeded (tr : list event) : bool :=
  existsb is_copy tr && forallb essential_ok tr.


(** A call of [cpSync], made with or without success. *)
Definition is_cp_call (e : event) : bool :=
  match e with
  | EvCall (CCp _ _) _ => true
  | _ => false
  end.



(** The line the [catch] block of [sparseCloneDocs] prints. *)
Definition clone_error_line (e : error) : event :=
  EvError [VStr "❌ Error during sparse clone:"; VErr e].

(** The line the [.catch] handler of the runner prints. *)
Definition script_failed_line (e : error) : event :=
  EvError [VStr "💥 Script failed:"; VErr e].

(** The lines printed when a listing fails. *)
Definition temp_listing_warning : event :=
  EvLog [VStr "Could not list checked out files"].

Definition target_listing_warning : event :=
  EvLog [VStr "Could not list files, but copy completed successfully"].

(** The world in which the two listings end as [o1] and [o2] say, and
    everything else, what the listings do to the file system too, is as
    in [W]. *)
Definition with_listings (W : World) (o1 o2 : option string) : World :=
  {| tmpdir := tmpdir W;
     cwd := cwd W;
     now := now W;
     exec := fun cmd dir n =>
       if String.eqb cmd find_temp_cmd then ((exec W cmd dir n).1, o1)
       else if String.eqb cmd find_target_cmd then ((exec W cmd dir n).1, o2)
       else exec W cmd dir n;
     fault := fault W |}.

(** Two ends of a computation with the same outcome and the same file
    system; the traces may differ. *)
Definition agree {A} (r r' : outcome A * State) : Prop :=
  r.1 = r'.1 ∧ fs r.2 = fs r'.2.

(** Two computations that end alike whenever they start on the same file
    system. *)
Definition sim {A} (m m' : M A) : Prop :=
  ∀ s s', fs s = fs s' → agree (m s) (m' s').



(** External commands that leave what is at a path alone. *)
Definition leaves_alone (W : World) (p : path) : Prop :=
  ∀ cmd dir n, lookup_path p (exec W cmd dir n).1 = lookup_path p n.

(* ===================================================================== *)
(** * The layout configuration *)
(* ===================================================================== *)

Module Layout.

(** What JSX evaluates to: an element of a component or tag with its
    attributes and children, a text, or a fragment [<>...</>]. *)
#[warnings="-register-all"]
Inductive jsx : Type :=
  | Element (tag : string) (props : list (string * string)) (children : list jsx)
  | Text (s : string)
  | Fragment (children : list jsx).

(** Modelled from the spec: the link descriptor of the layout library,
    whose declaration is not part of the sources; a label and a target
    address. *)
Record LinkItem : Type := {
  text : string;
  url : string;
}.

(** The [nav] slot, with the one field the configuration sets. *)
Record NavOptions : Type := {
  title : jsx;
}.

(** [BaseLayoutProps], with the two slots the configuration sets. *)
Record BaseLayoutProps : Type := {
  nav : NavOptions;
  links : list LinkItem;
}.

(** [<Logo className=... />]; the component itself is not part of the
    sources. *)
Definition Logo (className : string) : jsx :=
  Element "Logo" [("className", className)] [].

Definition baseOptions : BaseLayoutProps :=
  {| nav := {| title := Fragment [Logo "w-6 h-6"; Text "intern3.chat"] |};
     links := [] |}.

End Layout.

(* ===================================================================== *)
(** * A simulated world *)
(* ===================================================================== *)

(** Where git can clone to: a path with nothing at it, or an empty
    directory. *)
Definition can_clone_into (p : path) (n : node) : bool :=
  match lookup_path p n with
  | None => true
  | Some (Dir es) => bool_decide (size es = 0%nat)
  | Some (File _) => false
  end.

(** A remote whose default branch has the entry [docs] at [docs] (or
    none): the clone makes the temporary directory with its [.git], and
    fails when something other than an empty directory is there; the
    checkout materialises [docs] in it; the other commands leave the file
    system alone.  The commands in [failing] fail without an effect, the
    calls in [refused] are refused by the operating system. *)
Definition sim_exec (temp : path) (docs : option node) (failing : list string)
    (cmd : string) (dir : path) (n : node) : node * option string :=
  if bool_decide (cmd ∈ failing) then (n, None)
  else if bool_decide (cmd = clone_cmd temp) then
    if can_clone_into temp n then
      (default n (mkdirp temp n ≫= put (join temp ".git") empty_dir), Some EmptyString)
    else (n, None)
  else if bool_decide (cmd = checkout_cmd) then
    (match docs with
     | Some d => default n (put (join temp "docs") d n)
     | None => n
     end, Some EmptyString)
  else if bool_decide (cmd = find_temp_cmd) then (n, Some "./docs/guide.md")
  else if bool_decide (cmd = find_target_cmd) then (n, Some "./content/docs/guide.md")
  else (n, Some EmptyString).

Definition sim_world (t : Z) (docs : option node)
    (failing : list string) (refused : list call) : World :=
  {| tmpdir := ["tmp"];
     cwd := ["site"];
     now := t;
     exec := sim_exec ["tmp"; temp_name t] docs failing;
     fault := fun c _ => bool_decide (c ∈ refused) |}.

(** The docs of the remote of the examples. *)
Definition guide_docs : node :=
  Dir {[ "guide.md" := File "# Guide";
         "sub" := Dir {[ "page.md" := File "# Page" ]} ]}.

(** A disk with an older copy of the docs at the target. *)
Definition stale_disk : node :=
  Dir {[ "tmp" := empty_dir;
         "site" := Dir {[ "content" := Dir {[ "docs" := Dir {[ "old.md" := File "stale" ]} ]} ]} ]}.

(** A disk without the target. *)
Definition bare_disk : node :=
  Dir {[ "tmp" := empty_dir; "site" := empty_dir ]}.

(** A disk on which the temporary directory of clock reading 5 is there
    before the run, empty. *)
Definition occupied_disk : node :=
  Dir {[ "tmp" := Dir {[ "intern3-docs-clone-5" := empty_dir ]};
         "site" := empty_dir ]}.

(** A computation that leaves what is at the path [r] as it was. *)
Definition keeps {A} (r : path) (m : M A) : Prop :=
  ∀ s, lookup_path r (fs (m s).2) = lookup_path r (fs s).

(** A text of white space only. *)
Fixpoint blank (s : string) : bool :=
  match s with
  | EmptyString => true
  | String a r => Ascii.is_space a && blank r
  end.

(** A world without a network: every external command fails and changes
    nothing. *)
Definition offline_world (t : Z) : World :=
  {| tmpdir := ["tmp"];
     cwd := ["site"];
     now := t;
     exec := fun _ _ n => (n, None);
     fault := fun _ _ => false |}.

(** A disk with another folder beside the docs in [content], and with an
    older copy of the docs. *)
Definition blog_disk : node :=
  Dir {[ "tmp" := empty_dir;
         "site" := Dir {[ "content" :=
                            Dir {[ "docs" := Dir {[ "old.md" := File "stale" ]};
                                   "blog" := Dir {[ "post.md" := File "# Post" ]} ]} ]} ]}.

(* ===================================================================== *)
(** * Lemmas on the file system *)
(* ===================================================================== *)

Section FSLemmas.

Implicit Types (p q r : path) (n : node) (es : gmap string node).

Lemma lookup_path_empty_dir r : r ≠ [] → lookup_path r empty_dir = None.
Proof. destruct r as [|x r]; [done|]. intros _. cbn. by rewrite lookup_empty. Qed.

Lemma lookup_path_file r data : r ≠ [] → lookup_path r (File data) = None.
Proof. by destruct r. Qed.

Lemma lookup_path_app_None p q n :
  lookup_path p n = None → lookup_path (p ++ q) n = None.
Proof.
  revert n. induction p as [|x p IH]; intros n H; [done|].
  destruct n as [data|es]; [done|]. cbn in *.
  destruct (es !! x); [by apply IH|done].
Qed.

Lemma exists_path_true p n : exists_path p n = true ↔ is_Some (lookup_path p n).
Proof. unfold exists_path. by rewrite bool_decide_eq_true. Qed.

Lemma exists_path_false p n : exists_path p n = false ↔ lookup_path p n = None.
Proof.
  unfold exists_path. rewrite bool_decide_eq_false. symmetry. apply eq_None_not_Some.
Qed.

Lemma rm_path_lookup_self p n : p ≠ [] → lookup_path p (rm_path p n) = None.
Proof.
  revert n. induction p as [|x q IH]; intros n Hp; [done|].
  destruct n as [data|es]; [done|].
  destruct q as [|y q'].
  - cbn. by rewrite lookup_delete_eq.
  - cbn [rm_path lookup_path]. rewrite lookup_alter_eq.
    destruct (es !! x) as [c|]; cbn [fmap option_fmap option_map]; [|done].
    by apply IH.
Qed.

Lemma rm_path_lookup_apart p r n :
  apart p r → lookup_path r (rm_path p n) = lookup_path r n.
Proof.
  revert r n. induction p as [|x q IH]; intros r n [Hpr Hrp].
  { destruct Hpr. apply prefix_nil. }
  destruct n as [data|es]; [done|].
  destruct r as [|y r'].
  { destruct Hrp. apply prefix_nil. }
  destruct (decide (x = y)) as [->|Hxy].
  - destruct q as [|z q'].
    { destruct Hpr. apply prefix_cons, prefix_nil. }
    cbn [rm_path lookup_path]. rewrite lookup_alter_eq.
    destruct (es !! y) as [c|]; cbn [fmap option_fmap option_map]; [|done].
    apply IH. split; intros H; [apply Hpr|apply Hrp]; by apply prefix_cons.
  - destruct q as [|z q']; cbn [rm_path lookup_path].
    + by rewrite lookup_delete_ne.
    + by rewrite lookup_alter_ne.
Qed.

Lemma mkdirp_lookup p r n n' :
  mkdirp p n = Some n' → ¬ r `prefix_of` p → lookup_path r n' = lookup_path r n.
Proof.
  revert r n n'. induction p as [|x q IH]; intros r n n' Hmk Hr.
  { destruct n; simplify_eq/=; done. }
  destruct n as [data|es]; [done|]. cbn in Hmk.
  destruct (mkdirp q (default empty_dir (es !! x))) as [c|] eqn:Hc; simplify_eq/=.
  destruct r as [|y r'].
  { destruct Hr. apply prefix_nil. }
  cbn [lookup_path].
  destruct (decide (x = y)) as [->|Hxy].
  - rewrite lookup_insert_eq.
    assert (Hr' : ¬ r' `prefix_of` q) by (intros H; apply Hr; by apply prefix_cons).
    rewrite (IH _ _ _ Hc Hr').
    destruct (es !! y) as [c0|]; cbn; [done|].
    apply lookup_path_empty_dir. intros ->. apply Hr', prefix_nil.
  - by rewrite lookup_insert_ne.
Qed.

Lemma put_cons_cons x y q v es :
  put (x :: y :: q) v (Dir es) =
  match es !! x with
  | Some c =>
      match put (y :: q) v c with
      | Some c' => Some (Dir (<[x:=c']> es))
      | None => None
      end
  | None => None
  end.
Proof. reflexivity. Qed.

Lemma put_lookup_self p v n n' : put p v n = Some n' → lookup_path p n' = Some v.
Proof.
  revert n n'. induction p as [|x q IH]; intros n n' Hput.
  { by simplify_eq/=. }
  destruct n as [data|es]; [done|].
  destruct q as [|y q'].
  - simplify_eq/=. by rewrite lookup_insert_eq.
  - rewrite put_cons_cons in Hput.
    destruct (es !! x) as [c|]; [|done].
    destruct (put (y :: q') v c) as [c'|] eqn:Hc; simplify_eq.
    cbn [lookup_path]. rewrite lookup_insert_eq. by eapply IH.
Qed.

Lemma put_lookup_apart p r v n n' :
  put p v n = Some n' → apart p r → lookup_path r n' = lookup_path r n.
Proof.
  revert r n n'. induction p as [|x q IH]; intros r n n' Hput [Hpr Hrp].
  { destruct Hpr. apply prefix_nil. }
  destruct n as [data|es]; [done|].
  destruct r as [|y r'].
  { destruct Hrp. apply prefix_nil. }
  destruct (decide (x = y)) as [->|Hxy].
  - destruct q as [|z q'].
    { destruct Hpr. apply prefix_cons, prefix_nil. }
    rewrite put_cons_cons in Hput.
    destruct (es !! y) as [c|] eqn:Hy; [|done].
    destruct (put (z :: q') v c) as [c'|] eqn:Hc; simplify_eq.
    cbn [lookup_path]. rewrite lookup_insert_eq, Hy.
    eapply IH; [done|]. split; intros H; [apply Hpr|apply Hrp]; by apply prefix_cons.
  - destruct q as [|z q'].
    + cbn [put] in Hput. simplify_eq. cbn [lookup_path]. by rewrite lookup_insert_ne.
    + rewrite put_cons_cons in Hput.
      destruct (es !! x) as [c|]; [|done].
      destruct (put (z :: q') v c) as [c'|]; simplify_eq.
      cbn [lookup_path]. by rewrite lookup_insert_ne.
Qed.

Lemma parent_not_prefix p : p ≠ [] → ¬ p `prefix_of` parent p.
Proof.
  intros Hp Hpre. apply prefix_length in Hpre.
  unfold parent in Hpre.
  destruct (exists_last Hp) as (l & a & ->).
  rewrite removelast_last, length_app in Hpre. simpl in Hpre. lia.
Qed.

Lemma cp_tree_fresh src dst n n' :
  cp_tree src dst n = Some n' → lookup_path dst n = None →
  lookup_path dst n' = lookup_path src n.
Proof.
  unfold cp_tree. intros Hcp Hdst.
  destruct (lookup_path src n) as [s|]; [|done].
  case_bool_decide; [done|].
  destruct (mkdirp (parent dst) n) as [n1|] eqn:Hmk; [|done].
  assert (dst ≠ []) as Hne by (intros ->; done).
  rewrite (mkdirp_lookup _ dst _ _ Hmk (parent_not_prefix _ Hne)), Hdst in Hcp.
  by eapply put_lookup_self.
Qed.

Lemma apart_heads (x y : string) (p q : path) : x ≠ y → apart (x :: p) (y :: q).
Proof.
  intros Hxy. split; intros [k Hk]; simplify_eq/=.
Qed.

End FSLemmas.

(* ===================================================================== *)
(** * The paths of a run *)
(* ===================================================================== *)

Section Paths.

Context (W : World).

Lemma target_not_root : TARGET_DOCS_DIR W ≠ [].
Proof. unfold TARGET_DOCS_DIR. by destruct (cwd W). Qed.

Lemma tempDir_not_root : tempDir W ≠ [].
Proof. unfold tempDir, temp_dir_at, join. by destruct (tmpdir W). Qed.

Lemma target_in_content : TARGET_DOCS_DIR W = CONTENT_DIR W ++ ["docs"].
Proof. unfold TARGET_DOCS_DIR, CONTENT_DIR. by rewrite <- app_assoc. Qed.

Lemma target_not_above_content : ¬ TARGET_DOCS_DIR W `prefix_of` CONTENT_DIR W.
Proof.
  rewrite target_in_content. intros H%prefix_length.
  rewrite length_app in H. simpl in H. lia.
Qed.

Lemma tempDocs_not_above_content :
  apart (tempDir W) (TARGET_DOCS_DIR W) →
  ¬ tempDocsDir W `prefix_of` CONTENT_DIR W.
Proof.
  intros [Hap _] H. apply Hap.
  trans (tempDocsDir W); [apply prefix_app_r; done|].
  trans (CONTENT_DIR W); [done|].
  rewrite target_in_content. by apply prefix_app_r.
Qed.

End Paths.

(* ===================================================================== *)
(** * Running the script symbolically *)
(* ===================================================================== *)

Ltac run_unfold :=
  cbv [run call_sparseCloneDocs attempt checked_out main sparseCloneDocs
       try_catch_finally try_body clear_target clone_steps list_checked_out
       copy_steps list_target cleanup catch_handler
       mbind M_bind bind mret M_ret ret try_catch try_finally throw
       process_exit console_log console_error existsSync execSync fs_call
       rmSync mkdirSync cpSync date_now started init];
  repeat match goal with
    | |- context [temp_dir_at ?W (now ?W)] =>
        change (temp_dir_at W (now W)) with (tempDir W)
    end;
  repeat match goal with
    | |- context [join (tempDir ?W) "docs"] =>
        change (join (tempDir W) "docs") with (tempDocsDir W)
    end.

Ltac run_simpl :=
  cbn [fs trace emit app fst snd exit_status calls stderr andb orb negb].

(** One call of the world is decided, and the run goes on. *)
Ltac run_step :=
  match goal with
  | |- context [exec ?W ?c ?d ?n] =>
      let E := fresh "Hexec" in destruct (exec W c d n) as [? [?|]] eqn:E
  | |- context [fault ?W ?c ?n] =>
      let E := fresh "Hfault" in destruct (fault W c n) eqn:E
  | |- context [exists_path ?p ?n] =>
      let E := fresh "Hexists" in destruct (exists_path p n) eqn:E
  | |- context [mkdirp ?p ?n] =>
      let E := fresh "Hmkdir" in destruct (mkdirp p n) eqn:E
  | |- context [cp_tree ?a ?b ?n] =>
      let E := fresh "Hcp" in destruct (cp_tree a b n) eqn:E
  end; run_simpl.

Ltac run_all := run_unfold; run_simpl; repeat run_step.

(** Every way the computation [r] can go, one goal each, with the
    outcome and the final state put in place of [r]. *)
Ltac run_cases r :=
  let o := fresh "o" in
  let s := fresh "s" in
  let H := fresh "Hrun" in
  destruct r as [o s] eqn:H; revert H; run_all;
  intros H; injection H as <- <-; run_simpl.

Lemma clone_cmd_head t :
  ∃ rest, clone_cmd t = String "g" rest.
Proof. unfold clone_cmd. cbv [String.append]. eauto. Qed.

Lemma clone_not_diagnostic t d : is_diagnostic (CExec (clone_cmd t) d) = false.
Proof. destruct (clone_cmd_head t) as [rest ->]. reflexivity. Qed.

(* ===================================================================== *)
(** * The run, block by block *)
(* ===================================================================== *)

Lemma attempt_never_exits W n c s : attempt W n ≠ (Exited c, s).
Proof. run_all; discriminate. Qed.

Lemma call_sparseCloneDocs_eq W n :
  call_sparseCloneDocs W n =
  match attempt W n with
  | (Thrown e, s) => (Exited 1, emit (clone_error_line e) s)
  | (Exited c, s) => (Exited c, s)
  | (Normal a, s) =>
      if exists_path (tempDir W) (fs s) then
        let s1 := emit (EvLog [VStr "🧹 Cleaning up temporary directory..."]) s in
        if fault W (CRm (tempDir W)) (fs s) then
          (Thrown (FsError (CRm (tempDir W))), emit (EvCall (CRm (tempDir W)) false) s1)
        else
          (Normal a,
           {| fs := rm_path (tempDir W) (fs s);
              trace := trace s1 ++ [EvCall (CRm (tempDir W)) true] |})
      else (Normal a, s)
  end.
Proof.
  unfold call_sparseCloneDocs, sparseCloneDocs, attempt.
  cbv [mbind M_bind bind date_now try_catch_finally try_finally try_catch].
  change (emit (EvCall CNow true) (init n)) with (started n).
  change (temp_dir_at W (now W)) with (tempDir W).
  destruct (try_body W (tempDir W) (started n)) as [[a|e|c] s]; [|reflexivity..].
  cbv [cleanup mbind M_bind bind existsSync console_log rmSync fs_call mret M_ret ret].
  destruct (exists_path (tempDir W) (fs s)); [|reflexivity].
  cbn [fs emit trace]. by destruct (fault W (CRm (tempDir W)) (fs s)).
Qed.

Lemma run_eq W n :
  run W n =
  match call_sparseCloneDocs W n with
  | (Normal a, s) =>
      (Normal a, emit (EvLog [VStr "🎉 Optimized sparse clone completed successfully!"]) s)
  | (Thrown e, s) => (Exited 1, emit (script_failed_line e) s)
  | (Exited c, s) => (Exited c, s)
  end.
Proof.
  unfold run, main, call_sparseCloneDocs.
  cbv [try_catch mbind M_bind bind console_log console_error process_exit].
  destruct (sparseCloneDocs W (init n)) as [[[]|e|c] s]; reflexivity.
Qed.

Lemma attempt_eq W n :
  attempt W n =
  match checked_out W n with
  | (Normal _, s) => copy_steps W (tempDir W) s
  | (Thrown e, s) => (Thrown e, s)
  | (Exited c, s) => (Exited c, s)
  end.
Proof.
  unfold attempt, checked_out, try_body. cbv [mbind M_bind bind].
  destruct (clear_target W (started n)) as [[[]|e|c] s]; [|done..].
  destruct (clone_steps W (tempDir W) s) as [[[]|e|c] s1]; [|done..].
  by destruct (list_checked_out W (tempDir W) s1) as [[[]|e|c] s2].
Qed.

(** The calls of a trace that is put after another. *)
Lemma calls_app tr tr' : calls (tr ++ tr') = calls tr ++ calls tr'.
Proof.
  induction tr as [|[c ok|args|args] tr IH]; cbn; [done| |done..].
  by rewrite IH.
Qed.

(** The [try] block goes on from the state the removal of the target
    left. *)
Lemma attempt_after_clear W n :
  attempt W n =
  match clear_target W (started n) with
  | (Normal _, s0) =>
      (clone_steps W (tempDir W);; list_checked_out W (tempDir W);;
       copy_steps W (tempDir W)) s0
  | (Thrown e, s0) => (Thrown e, s0)
  | (Exited c, s0) => (Exited c, s0)
  end.
Proof.
  unfold attempt, try_body. cbv [mbind M_bind bind].
  by destruct (clear_target W (started n)) as [[[]|e|c] s0].
Qed.

(** How the removal of the target ends. *)
Lemma clear_target_cases W n :
  match clear_target W (started n) with
  | (Normal _, s0) =>
      lookup_path (TARGET_DOCS_DIR W) (fs s0) = None
      ∧ if exists_path (TARGET_DOCS_DIR W) n
        then fault W (CRm (TARGET_DOCS_DIR W)) n = false
             ∧ fs s0 = rm_path (TARGET_DOCS_DIR W) n
             ∧ calls (trace s0) = [(CNow, true); (CRm (TARGET_DOCS_DIR W), true)]
        else fs s0 = n ∧ calls (trace s0) = [(CNow, true)]
  | (Thrown e, s0) =>
      e = FsError (CRm (TARGET_DOCS_DIR W))
      ∧ exists_path (TARGET_DOCS_DIR W) n = true
      ∧ fault W (CRm (TARGET_DOCS_DIR W)) n = true
      ∧ calls (trace s0) = [(CNow, true); (CRm (TARGET_DOCS_DIR W), false)]
  | (Exited _, _) => False
  end.
Proof.
  run_cases (clear_target W (started n)).
  all: try apply exists_path_false in Hexists.
  all: try done.
  all: split; [|done]; apply rm_path_lookup_self, target_not_root.
Qed.

Ltac frame_facts Hframe :=
  repeat match goal with
    | H : exec ?W ?c ?d ?n = (?n', _) |- _ =>
        let F := fresh "Hframe" in
        pose proof (Hframe c d n) as F; rewrite H in F; cbn [fst] in F;
        revert H
    end;
  intros.

Lemma checked_out_target_absent W n s :
  leaves_alone W (TARGET_DOCS_DIR W) →
  checked_out W n = (Normal (), s) →
  lookup_path (TARGET_DOCS_DIR W) (fs s) = None.
Proof.
  intros Hframe. revert s. run_cases (checked_out W n).
  all: intros s [= <-]; cbn [fs emit].
  all: frame_facts Hframe.
  all: try apply exists_path_false in Hexists.
  all: pose proof (rm_path_lookup_self _ n (target_not_root W)).
  all: congruence.
Qed.


Lemma copy_steps_normal W m s :
  copy_steps W (tempDir W) m = (Normal (), s) →
  ∃ d n1 n2,
    lookup_path (tempDocsDir W) (fs m) = Some d
    ∧ mkdirp (CONTENT_DIR W) (fs m) = Some n1
    ∧ cp_tree (tempDocsDir W) (TARGET_DOCS_DIR W) n1 = Some n2
    ∧ fs s = (exec W find_target_cmd (cwd W) n2).1.
Proof.
  revert s. run_cases (copy_steps W (tempDir W) m).
  all: intros s [= <-]; cbn [fs emit].
  all: apply exists_path_true in Hexists as [d Hd].
  all: exists d; do 2 eexists; rewrite Hexec; cbn [fst]; eauto.
Qed.


(** What a successful run leaves, when the external commands leave the
    target alone and the temporary directory lies apart from it. *)
Lemma successful_run W n s :
  leaves_alone W (TARGET_DOCS_DIR W) →
  apart (tempDir W) (TARGET_DOCS_DIR W) →
  run W n = (Normal (), s) →
  ∃ m d,
    checked_out W n = (Normal (), m)
    ∧ lookup_path (tempDocsDir W) (fs m) = Some d
    ∧ lookup_path (TARGET_DOCS_DIR W) (fs s) = Some d
    ∧ exists_path (tempDir W) (fs s) = false.
Proof.
  intros Hframe Hapart Hrun.
  rewrite run_eq, call_sparseCloneDocs_eq, attempt_eq in Hrun.
  destruct (checked_out W n) as [[[]|e|c] m] eqn:Hm; [|done..].
  pose proof (checked_out_target_absent _ _ _ Hframe Hm) as Habsent.
  destruct (copy_steps W (tempDir W) m) as [[[]|e|c] s1] eqn:Hcopy; [|done..].
  apply copy_steps_normal in Hcopy as (d & n1 & n2 & Hd & Hmk & Hcp & Hs1).
  exists m, d. split; [done|]. split; [done|].
  assert (lookup_path (TARGET_DOCS_DIR W) (fs s1) = Some d) as Htarget.
  { rewrite Hs1, Hframe.
    rewrite (cp_tree_fresh _ _ _ _ Hcp).
    - by rewrite (mkdirp_lookup _ _ _ _ Hmk (tempDocs_not_above_content W Hapart)).
    - by rewrite (mkdirp_lookup _ _ _ _ Hmk (target_not_above_content W)). }
  destruct (exists_path (tempDir W) (fs s1)) eqn:Htemp.
  - cbv zeta in Hrun. destruct (fault W (CRm (tempDir W)) (fs s1)); [done|].
    simplify_eq/=. split.
    + by rewrite rm_path_lookup_apart.
    + apply exists_path_false, rm_path_lookup_self, tempDir_not_root.
  - by simplify_eq/=.
Qed.

(* ===================================================================== *)
(** * The simulated world *)
(* ===================================================================== *)

Lemma sim_exec_leaves_site_alone t docs failing cmd dir n r :
  lookup_path ("site" :: r) (sim_exec ["tmp"; temp_name t] docs failing cmd dir n).1
  = lookup_path ("site" :: r) n.
Proof.
  unfold sim_exec. repeat case_bool_decide; cbn [fst]; try done.
  - destruct (can_clone_into ["tmp"; temp_name t] n); [|done]. cbn [fst].
    destruct (mkdirp ["tmp"; temp_name t] n) as [n1|] eqn:Hmk;
      cbn [mbind option_bind from_option id]; [|done].
    destruct (put (join ["tmp"; temp_name t] ".git") empty_dir n1) as [n2|] eqn:Hput;
      cbn [from_option id]; [|done].
    rewrite (put_lookup_apart _ ("site" :: r) _ _ _ Hput) by by apply apart_heads.
    apply (mkdirp_lookup _ _ _ _ Hmk). intros [k Hk]. simplify_eq/=.
  - destruct docs as [d|]; [|done].
    destruct (put (join ["tmp"; temp_name t] "docs") d n) as [n1|] eqn:Hput;
      cbn [from_option id]; [|done].
    by rewrite (put_lookup_apart _ ("site" :: r) _ _ _ Hput) by by apply apart_heads.
Qed.

Lemma sim_world_leaves_alone t docs failing refused :
  leaves_alone (sim_world t docs failing refused)
    (TARGET_DOCS_DIR (sim_world t docs failing refused)).
Proof. intros cmd dir n. apply sim_exec_leaves_site_alone. Qed.

Lemma sim_world_apart t docs failing refused :
  apart (tempDir (sim_world t docs failing refused))
    (TARGET_DOCS_DIR (sim_world t docs failing refused)).
Proof. by apply apart_heads. Qed.

(* ===================================================================== *)
(** * The cleanup of a failed run *)
(* ===================================================================== *)

(** C1.  The temporary directory is meant to be gone when the process
    exits, on every exit path.  The [finally] block that removes it does
    not run after [process.exit(1)] in the [catch] block: with a remote
    that has no [docs] folder, and with a checkout that fails, the run
    exits with status 1, removes nothing, and the temporary directory
    that the clone made is still on the disk. *)
Theorem cleanup_skipped_after_failure :
  let W := sim_world 5 None [] [] in
  let r := run W bare_disk in
  let W' := sim_world 5 (Some guide_docs) [checkout_cmd] [] in
  let r' := run W' bare_disk in
  (exists_path (tempDir W) bare_disk = false
   ∧ r.1 = Exited 1
   ∧ last (trace r.2) = Some (clone_error_line docs_not_found)
   ∧ exists_path (tempDir W) (fs r.2) = true
   ∧ calls (trace r.2) =
       [(CNow, true);
        (CExec (clone_cmd (tempDir W)) ["site"], true);
        (CExec config_cmd (tempDir W), true);
        (CExec init_cmd (tempDir W), true);
        (CExec set_cmd (tempDir W), true);
        (CExec checkout_cmd (tempDir W), true);
        (CExec find_temp_cmd (tempDir W), true)])
  ∧ (r'.1 = Exited 1
     ∧ last (trace r'.2) = Some (clone_error_line (ExecError checkout_cmd))
     ∧ exists_path (tempDir W') (fs r'.2) = true
     ∧ calls (trace r'.2) =
         [(CNow, true);
          (CExec (clone_cmd (tempDir W')) ["site"], true);
          (CExec config_cmd (tempDir W'), true);
          (CExec init_cmd (tempDir W'), true);
          (CExec set_cmd (tempDir W'), true);
          (CExec checkout_cmd (tempDir W'), false)]).
Proof. cbv zeta. repeat split; vm_compute; reflexivity. Qed.

(* ===================================================================== *)
(** * The temporary path *)
(* ===================================================================== *)

Lemma temp_name_inj : Inj (=) (=) temp_name.
Proof.
  intros t1 t2 H. unfold temp_name in H.
  by apply (inj (String.app _)), (inj pretty) in H.
Qed.

Lemma join_inj p a b : join p a = join p b → a = b.
Proof. unfold join. intros H. apply app_inv_head in H. by simplify_eq. Qed.

(** C2, as amended.  The temporary path is made of the temporary
    directory of the system and the clock reading, and of nothing else:
    two invocations with the same temporary directory of the system
    derive the same path exactly when their clock readings are equal. *)
Theorem temp_path_distinct_by_clock W1 W2 :
  tmpdir W1 = tmpdir W2 → (tempDir W1 = tempDir W2 ↔ now W1 = now W2).
Proof.
  intros Htmp. unfold tempDir, temp_dir_at. rewrite Htmp. split.
  - intros H. by apply join_inj, temp_name_inj in H.
  - by intros ->.
Qed.

(** Clock readings 5 and 6 give two paths. *)
Lemma temp_path_distinct_by_clock_witness :
  tempDir (sim_world 5 None [] []) ≠ tempDir (sim_world 6 None [] []).
Proof.
  intros H.
  apply (temp_path_distinct_by_clock (sim_world 5 None [] []) (sim_world 6 None [] []) eq_refl) in H.
  discriminate H.
Defined.

(** C2 as stated fails: two invocations in the same millisecond derive
    the same path, and the path derived can be on the disk already; the
    run then clones into it. *)
Lemma temp_path_can_be_taken :
  tempDir (sim_world 5 (Some guide_docs) [] []) = tempDir (sim_world 5 None [] [])
  ∧ exists_path (tempDir (sim_world 5 None [] [])) occupied_disk = true
  ∧ calls (trace (run (sim_world 5 None [] []) occupied_disk).2) !! 1%nat
    = Some (CExec (clone_cmd ["tmp"; "intern3-docs-clone-5"]) ["site"], true).
Proof. split; [reflexivity|]. split; vm_compute; reflexivity. Qed.

(* ===================================================================== *)
(** * A clone without a docs folder *)
(* ===================================================================== *)




(* ===================================================================== *)
(** * The listings *)
(* ===================================================================== *)

Section Simulation.

Context {A B : Type}.

Lemma sim_ret (a : A) : sim (mret a) (mret a).
Proof. intros s s' Hfs. by split. Qed.

Lemma sim_bind (m m' : M A) (f f' : A → M B) :
  sim m m' → (∀ a, sim (f a) (f' a)) → sim (m ≫= f) (m' ≫= f').
Proof.
  intros Hm Hf s s' Hfs. cbv [mbind M_bind bind].
  destruct (Hm s s' Hfs) as [Ho Hs].
  destruct (m s) as [[a|e|c] s1], (m' s') as [[a'|e'|c'] s1']; simplify_eq/=;
    try done.
  by apply Hf.
Qed.

Lemma sim_throw (e : error) : sim (throw (A:=A) e) (throw e).
Proof. intros s s' Hfs. by split. Qed.

Lemma sim_process_exit (c : Z) : sim (process_exit (A:=A) c) (process_exit c).
Proof. intros s s' Hfs. by split. Qed.

Lemma sim_try_catch (m m' : M A) (h h' : error → M A) :
  sim m m' → (∀ e, sim (h e) (h' e)) → sim (try_catch m h) (try_catch m' h').
Proof.
  intros Hm Hh s s' Hfs. unfold try_catch.
  destruct (Hm s s' Hfs) as [Ho Hs].
  destruct (m s) as [[a|e|c] s1], (m' s') as [[a'|e'|c'] s1']; simplify_eq/=;
    try done.
  by apply Hh.
Qed.

Lemma sim_try_finally (m m' : M A) (k k' : M unit) :
  sim m m' → sim k k' → sim (try_finally m k) (try_finally m' k').
Proof.
  intros Hm Hk s s' Hfs. unfold try_finally.
  destruct (Hm s s' Hfs) as [Ho Hs].
  destruct (m s) as [[a|e|c] s1], (m' s') as [[a'|e'|c'] s1']; simplify_eq/=;
    try done.
  all: destruct (Hk s1 s1' Hs) as [Ho' Hs'].
  all: destruct (k s1) as [[[]|e1|c1] s2], (k' s1') as [[[]|e1'|c1'] s2'];
    simplify_eq/=; done.
Qed.

End Simulation.

Lemma sim_console_log args args' : sim (console_log args) (console_log args').
Proof. intros s s' Hfs. by split. Qed.

Lemma sim_console_error args args' : sim (console_error args) (console_error args').
Proof. intros s s' Hfs. by split. Qed.

Section Listings.

Context (W : World) (o1 o2 : option string).

Local Abbreviation W' := (with_listings W o1 o2).

Lemma with_listings_exec_other cmd d n :
  is_diagnostic (CExec cmd d) = false → exec W' cmd d n = exec W cmd d n.
Proof.
  cbn. intros [H1 H2]%orb_false_elim. by rewrite H1, H2.
Qed.

Lemma sim_date_now : sim (date_now W) (date_now W').
Proof. intros s s' Hfs. by split. Qed.

Lemma sim_existsSync p : sim (existsSync p) (existsSync p).
Proof. intros s s' Hfs. unfold existsSync. rewrite Hfs. by split. Qed.

Lemma sim_execSync cmd d :
  is_diagnostic (CExec cmd d) = false → sim (execSync W cmd d) (execSync W' cmd d).
Proof.
  intros Hd s s' Hfs. unfold execSync.
  rewrite with_listings_exec_other, Hfs by done.
  by destruct (exec W cmd d (fs s')) as [n [out|]].
Qed.

Lemma sim_fs_call c effect : sim (fs_call W c effect) (fs_call W' c effect).
Proof.
  intros s s' Hfs. unfold fs_call. cbn [fault with_listings]. rewrite Hfs.
  destruct (fault W c (fs s')); [by split|].
  by destruct (effect (fs s')).
Qed.

(** A listing ends normally, whatever the command does. *)
Lemma list_checked_out_normal d s :
  (list_checked_out W d s).1 = Normal ()
  ∧ fs (list_checked_out W d s).2 = (exec W find_temp_cmd d (fs s)).1.
Proof.
  cbv [list_checked_out mbind M_bind bind try_catch execSync console_log].
  cbn [fs emit]. by destruct (exec W find_temp_cmd d (fs s)) as [n [out|]].
Qed.

Lemma list_target_normal s :
  (list_target W s).1 = Normal ()
  ∧ fs (list_target W s).2 = (exec W find_target_cmd (cwd W) (fs s)).1.
Proof.
  cbv [list_target mbind M_bind bind try_catch execSync console_log].
  cbn [fs emit]. by destruct (exec W find_target_cmd (cwd W) (fs s)) as [n [out|]].
Qed.

End Listings.

Section ListingsSim.

Context (W : World) (o1 o2 : option string).

Local Abbreviation W' := (with_listings W o1 o2).

Lemma sim_list_checked_out d :
  sim (list_checked_out W d) (list_checked_out W' d).
Proof.
  intros s s' Hfs.
  destruct (list_checked_out_normal W d s) as [Ho Hs].
  destruct (list_checked_out_normal W' d s') as [Ho' Hs'].
  split; [congruence|]. rewrite Hs, Hs', Hfs. by cbn.
Qed.

Lemma sim_list_target : sim (list_target W) (list_target W').
Proof.
  intros s s' Hfs.
  destruct (list_target_normal W s) as [Ho Hs].
  destruct (list_target_normal W' s') as [Ho' Hs'].
  split; [congruence|]. rewrite Hs, Hs', Hfs. by cbn.
Qed.

Ltac sim_step :=
  match goal with
  | |- sim (_ ≫= _) (_ ≫= _) => apply sim_bind; [|intros ?]
  | |- sim (if ?b then _ else _) (if ?b then _ else _) => destruct b
  | |- sim (try_catch _ _) (try_catch _ _) => apply sim_try_catch; [|intros ?]
  | |- sim (try_finally _ _) (try_finally _ _) => apply sim_try_finally
  | |- sim (console_log _) _ => apply sim_console_log
  | |- sim (console_error _) _ => apply sim_console_error
  | |- sim (existsSync _) _ => apply sim_existsSync
  | |- sim (execSync _ _ _) _ => apply sim_execSync
  | |- sim (fs_call _ _ _) _ => apply sim_fs_call
  | |- sim (date_now _) _ => apply sim_date_now
  | |- sim (mret _) _ => apply sim_ret
  | |- sim (ret _) _ => apply (sim_ret (A:=unit))
  | |- sim (throw _) _ => apply sim_throw
  | |- sim (process_exit _) _ => apply sim_process_exit
  | |- sim (list_checked_out _ _) _ => apply sim_list_checked_out
  | |- sim (list_target _) _ => apply sim_list_target
  | |- is_diagnostic (CExec (clone_cmd _) _) = false => apply clone_not_diagnostic
  | |- is_diagnostic _ = false => reflexivity
  end.

Lemma sim_main : sim (main W) (main W').
Proof.
  unfold main, sparseCloneDocs, try_catch_finally, try_body, catch_handler,
    cleanup, clear_target, clone_steps, copy_steps, rmSync, mkdirSync, cpSync.
  repeat sim_step.
Qed.

End ListingsSim.

(** C5.  Each of the two listings ends normally whatever its command
    does; when the command fails the last line printed is the warning;
    and a run in a world where the listings end in any other way has the
    same outcome, hence the same exit status, and leaves the same file
    system. *)
Theorem listings_never_fail_the_run W n o1 o2 :
  (∀ d s, (list_checked_out W d s).1 = Normal ())
  ∧ (∀ s, (list_target W s).1 = Normal ())
  ∧ (∀ d s, match (exec W find_temp_cmd d (fs s)).2 with
            | None => last (trace (list_checked_out W d s).2) = Some temp_listing_warning
            | Some _ => True
            end)
  ∧ (∀ s, match (exec W find_target_cmd (cwd W) (fs s)).2 with
          | None => last (trace (list_target W s).2) = Some target_listing_warning
          | Some _ => True
          end)
  ∧ agree (run (with_listings W o1 o2) n) (run W n).
Proof.
  split; [intros; apply list_checked_out_normal|].
  split; [intros; apply list_target_normal|].
  split; [|split].
  - intros d s.
    cbv [list_checked_out mbind M_bind bind try_catch execSync console_log].
    cbn [fs emit].
    destruct (exec W find_temp_cmd d (fs s)) as [m [out|]];
      cbn [fst snd fs trace emit]; [done|].
    by rewrite last_snoc.
  - intros s.
    cbv [list_target mbind M_bind bind try_catch execSync console_log].
    cbn [fs emit].
    destruct (exec W find_target_cmd (cwd W) (fs s)) as [m [out|]];
      cbn [fst snd fs trace emit]; [done|].
    by rewrite last_snoc.
  - destruct (sim_main W o1 o2 (init n) (init n) eq_refl) as [Ho Hs].
    by split.
Qed.

(* ===================================================================== *)
(** * The order of the steps *)
(* ===================================================================== *)







Section SimSteps.

Context {A B : Type}.







End SimSteps.




Section ListingSteps.

Context (W : World) (o1 o2 : option string).

Local Abbreviation W' := (with_listings W o1 o2).




End ListingSteps.



Section ListingStepsSim.

Context (W : World) (o1 o2 : option string).

Local Abbreviation W' := (with_listings W o1 o2).





End ListingStepsSim.





(* ===================================================================== *)
(** * The exit status *)
(* ===================================================================== *)

(** A failed call that is not a listing makes the run a failed one. *)
Lemma failed_call_not_succeeded tr c :
  EvCall c false ∈ tr → is_diagnostic c = false → succeeded tr = false.
Proof.
  intros Hin Hc. unfold succeeded. apply andb_false_intro2.
  apply not_true_is_false. intros Hall.
  rewrite forallb_forall in Hall.
  apply list_elem_of_In, Hall in Hin. cbn in Hin. congruence.
Qed.

(** A run without a copy is a failed one. *)
Lemma no_copy_not_succeeded tr :
  (∀ src dst, EvCall (CCp src dst) true ∉ tr) → succeeded tr = false.
Proof.
  intros Hno. unfold succeeded. apply andb_false_intro1.
  apply not_true_is_false. intros (e & Hin & He)%existsb_exists.
  destruct e as [[| | | |src dst] [|]| |]; try done.
  by apply (Hno src dst), list_elem_of_In.
Qed.

(** C6.  The runner takes nothing but the world.  A run in which the docs
    are copied and no call fails, the listings apart, ends normally, with
    exit status 0 and nothing on standard error; every other run ends in
    [process.exit(1)], and the last thing it does before is to print the
    error, by the [catch] block of the function or by the [.catch]
    handler of the runner. *)
Theorem exit_status_of_run W n :
  let r := run W n in
  if succeeded (trace r.2)
  then r.1 = Normal () ∧ exit_status r.1 = 0 ∧ stderr (trace r.2) = []
  else r.1 = Exited 1 ∧ exit_status r.1 ≠ 0 ∧
       ∃ e, last (trace r.2) = Some (clone_error_line e)
            ∨ last (trace r.2) = Some (script_failed_line e).
Proof.
  cbv zeta. run_cases (run W n).
  all: cbn [succeeded existsb forallb is_copy essential_ok andb orb];
    rewrite ?clone_not_diagnostic; cbn [is_diagnostic andb orb].
  all: try (split; [reflexivity|split; [done|]]; eexists; (by left) || (by right)).
  all: try (split; [reflexivity|split;reflexivity]).
Qed.

(* ===================================================================== *)
(** * The target after a successful run *)
(* ===================================================================== *)

(** C7.  In every run, the removal of the target comes before the
    clone.  When it is made, nothing is at or below the target afterwards,
    a target that was there having been removed as a whole by the first
    call after the clock is read, and the clone and the rest of the [try]
    block go on from that state; when it is refused, the run ends with
    status 1 and no clone is made.  In a successful run, with external
    commands that leave the target alone and a temporary directory apart
    from the target, the target is at the end the tree that was at [docs]
    in the clone when it was copied, whatever the target held before. *)
Theorem stale_target_is_replaced W n :
  match clear_target W (started n) with
  | (Normal _, s0) =>
      (∀ q, lookup_path (TARGET_DOCS_DIR W ++ q) (fs s0) = None)
      ∧ (if exists_path (TARGET_DOCS_DIR W) n
         then fs s0 = rm_path (TARGET_DOCS_DIR W) n
              ∧ calls (trace s0) = [(CNow, true); (CRm (TARGET_DOCS_DIR W), true)]
         else fs s0 = n ∧ calls (trace s0) = [(CNow, true)])
      ∧ attempt W n
        = (clone_steps W (tempDir W);; list_checked_out W (tempDir W);;
           copy_steps W (tempDir W)) s0
  | (Thrown e, s0) =>
      exists_path (TARGET_DOCS_DIR W) n = true
      ∧ fault W (CRm (TARGET_DOCS_DIR W)) n = true
      ∧ run W n
        = (Exited 1, emit (clone_error_line (FsError (CRm (TARGET_DOCS_DIR W)))) s0)
      ∧ calls (trace (run W n).2)
        = [(CNow, true); (CRm (TARGET_DOCS_DIR W), false)]
  | (Exited _, _) => False
  end
  ∧ (leaves_alone W (TARGET_DOCS_DIR W) →
     apart (tempDir W) (TARGET_DOCS_DIR W) →
     ∀ s, run W n = (Normal (), s) →
          ∃ m d,
            checked_out W n = (Normal (), m)
            ∧ lookup_path (tempDocsDir W) (fs m) = Some d
            ∧ lookup_path (TARGET_DOCS_DIR W) (fs s) = Some d).
Proof.
  split.
  - pose proof (clear_target_cases W n) as Hclear.
    pose proof (attempt_after_clear W n) as Hatt.
    destruct (clear_target W (started n)) as [[[]|e|c] s0]; [| |done].
    + destruct Hclear as [Hnone Hcase]. split; [|split; [|done]].
      * intros q. by apply lookup_path_app_None.
      * destruct (exists_path (TARGET_DOCS_DIR W) n); [|done].
        by destruct Hcase as (_ & ? & ?).
    + destruct Hclear as (-> & Hex & Hfault & Hcalls).
      split; [done|]. split; [done|].
      assert (run W n
              = (Exited 1, emit (clone_error_line (FsError (CRm (TARGET_DOCS_DIR W)))) s0))
        as Hrun by (by rewrite run_eq, call_sparseCloneDocs_eq, Hatt).
      split; [done|]. rewrite Hrun. cbn [snd emit trace].
      rewrite calls_app, Hcalls. reflexivity.
  - intros Hframe Hapart s Hrun.
    destruct (successful_run _ _ _ Hframe Hapart Hrun) as (m & d & Hm & Hd & Ht & _).
    by exists m, d.
Qed.

(** A stale target is replaced by the docs of the remote. *)
Lemma stale_target_is_replaced_witness :
  ∃ m,
    checked_out (sim_world 5 (Some guide_docs) [] []) stale_disk = (Normal (), m)
    ∧ lookup_path ["tmp"; "intern3-docs-clone-5"; "docs"] (fs m) = Some guide_docs
    ∧ lookup_path ["site"; "content"; "docs"]
        (fs (run (sim_world 5 (Some guide_docs) [] []) stale_disk).2)
      = Some guide_docs.
Proof.
  destruct (proj2 (stale_target_is_replaced (sim_world 5 (Some guide_docs) [] []) stale_disk)
              (sim_world_leaves_alone _ _ _ _) (sim_world_apart _ _ _ _)
              (run (sim_world 5 (Some guide_docs) [] []) stale_disk).2)
    as (m & d & Hm & Hd & Ht).
  - vm_compute. reflexivity.
  - exists m. split; [exact Hm|].
    assert (lookup_path ["tmp"; "intern3-docs-clone-5"; "docs"] (fs m) = Some guide_docs) as Hg.
    { revert Hm. vm_compute. intros [= <-]. reflexivity. }
    split; [exact Hg|].
    change (tempDocsDir (sim_world 5 (Some guide_docs) [] []))
      with ["tmp"; "intern3-docs-clone-5"; "docs"] in Hd.
    rewrite Hg in Hd. injection Hd as <-. exact Ht.
Defined.

(* ===================================================================== *)
(** * Two runs in succession *)
(* ===================================================================== *)

(** Two successful runs in succession, the second on the file system
    the first one left, from the same working directory, in both of which
    the checkout puts the same tree [d] at [docs] in the clone (the remote
    has not changed): the target is [d] after the first run and the same
    after the second, and after each run its temporary directory is not
    there. *)
Lemma sync_is_idempotent W1 W2 n s1 s2 m1 m2 d :
  cwd W1 = cwd W2 →
  leaves_alone W1 (TARGET_DOCS_DIR W1) →
  leaves_alone W2 (TARGET_DOCS_DIR W2) →
  apart (tempDir W1) (TARGET_DOCS_DIR W1) →
  apart (tempDir W2) (TARGET_DOCS_DIR W2) →
  run W1 n = (Normal (), s1) →
  run W2 (fs s1) = (Normal (), s2) →
  checked_out W1 n = (Normal (), m1) →
  lookup_path (tempDocsDir W1) (fs m1) = Some d →
  checked_out W2 (fs s1) = (Normal (), m2) →
  lookup_path (tempDocsDir W2) (fs m2) = Some d →
  lookup_path (TARGET_DOCS_DIR W1) (fs s1) = Some d
  ∧ lookup_path (TARGET_DOCS_DIR W1) (fs s2) = lookup_path (TARGET_DOCS_DIR W1) (fs s1)
  ∧ exists_path (tempDir W1) (fs s1) = false
  ∧ exists_path (tempDir W2) (fs s2) = false.
Proof.
  intros Hcwd Hf1 Hf2 Ha1 Ha2 Hr1 Hr2 Hm1 Hd1 Hm2 Hd2.
  destruct (successful_run _ _ _ Hf1 Ha1 Hr1) as (m1' & d1 & Hm1' & Hd1' & Ht1 & He1).
  destruct (successful_run _ _ _ Hf2 Ha2 Hr2) as (m2' & d2 & Hm2' & Hd2' & Ht2 & He2).
  assert (TARGET_DOCS_DIR W1 = TARGET_DOCS_DIR W2) as HT
    by (unfold TARGET_DOCS_DIR; by rewrite Hcwd).
  rewrite Hm1 in Hm1'. injection Hm1' as <-.
  rewrite Hm2 in Hm2'. injection Hm2' as <-.
  rewrite Hd1 in Hd1'. injection Hd1' as <-.
  rewrite Hd2 in Hd2'. injection Hd2' as <-.
  rewrite <- HT in Ht2. by rewrite Ht1, Ht2.
Qed.

Lemma sync_is_idempotent_witness :
  let W1 := sim_world 5 (Some guide_docs) [] [] in
  let W2 := sim_world 6 (Some guide_docs) [] [] in
  let s1 := (run W1 stale_disk).2 in
  let s2 := (run W2 (fs s1)).2 in
  lookup_path ["site"; "content"; "docs"] (fs s1) = Some guide_docs
  ∧ lookup_path ["site"; "content"; "docs"] (fs s2)
    = lookup_path ["site"; "content"; "docs"] (fs s1)
  ∧ exists_path ["tmp"; "intern3-docs-clone-5"] (fs s1) = false
  ∧ exists_path ["tmp"; "intern3-docs-clone-6"] (fs s2) = false.
Proof.
  cbv zeta.
  apply (sync_is_idempotent
           (sim_world 5 (Some guide_docs) [] [])
           (sim_world 6 (Some guide_docs) [] [])
           stale_disk
           (run (sim_world 5 (Some guide_docs) [] []) stale_disk).2
           (run (sim_world 6 (Some guide_docs) [] [])
              (fs (run (sim_world 5 (Some guide_docs) [] []) stale_disk).2)).2
           (checked_out (sim_world 5 (Some guide_docs) [] []) stale_disk).2
           (checked_out (sim_world 6 (Some guide_docs) [] [])
              (fs (run (sim_world 5 (Some guide_docs) [] []) stale_disk).2)).2
           guide_docs).
  - reflexivity.
  - apply sim_world_leaves_alone.
  - apply sim_world_leaves_alone.
  - apply sim_world_apart.
  - apply sim_world_apart.
  - vm_compute. reflexivity.
  - vm_compute. reflexivity.
  - vm_compute. reflexivity.
  - vm_compute. reflexivity.
  - vm_compute. reflexivity.
  - vm_compute. reflexivity.
Defined.

(** C8.  Two runs in succession against an unchanged remote are meant to
    leave the same target and no temporary directory.  With a remote
    that has no [docs] folder both runs exit with status 1 and the target
    is absent after each, but the [finally] block runs after neither: the
    temporary directory of the first run is there after the first run
    and after the second, and that of the second run after the second. *)
Theorem failed_runs_leave_their_temp_dirs :
  let W1 := sim_world 5 None [] [] in
  let W2 := sim_world 6 None [] [] in
  let r1 := run W1 bare_disk in
  let r2 := run W2 (fs r1.2) in
  (r1.1 = Exited 1 ∧ r2.1 = Exited 1)
  ∧ (lookup_path (TARGET_DOCS_DIR W1) (fs r1.2) = None
     ∧ lookup_path (TARGET_DOCS_DIR W2) (fs r2.2) = None)
  ∧ exists_path (tempDir W1) bare_disk = false
  ∧ exists_path (tempDir W1) (fs r1.2) = true
  ∧ exists_path (tempDir W2) (fs r1.2) = false
  ∧ exists_path (tempDir W1) (fs r2.2) = true
  ∧ exists_path (tempDir W2) (fs r2.2) = true.
Proof. cbv zeta. repeat split; vm_compute; reflexivity. Qed.

(* ===================================================================== *)
(** * A cleanup that fails *)
(* ===================================================================== *)

(** C10, as amended.  An error thrown in the [try] block is caught in the
    function, which prints it and ends the process with
    [process.exit(1)] before the promise settles.  When the [try] block
    ends normally, the promise is rejected exactly when the temporary
    directory is there and its removal in the [finally] block fails; the
    [.catch] handler of the runner then prints the error and exits with
    status 1.  Otherwise the promise is fulfilled and the exit status is
    0.  The [try] block itself never ends the process. *)
Theorem sparseCloneDocs_settles W n :
  match attempt W n with
  | (Thrown e, s) =>
      call_sparseCloneDocs W n = (Exited 1, emit (clone_error_line e) s)
      ∧ run W n = (Exited 1, emit (clone_error_line e) s)
  | (Normal _, s) =>
      if exists_path (tempDir W) (fs s) && fault W (CRm (tempDir W)) (fs s)
      then ∃ s', call_sparseCloneDocs W n = (Thrown (FsError (CRm (tempDir W))), s')
                 ∧ run W n = (Exited 1, emit (script_failed_line (FsError (CRm (tempDir W)))) s')
      else ∃ s', call_sparseCloneDocs W n = (Normal (), s')
                 ∧ exit_status (run W n).1 = 0
  | (Exited _, _) => False
  end.
Proof.
  rewrite run_eq, call_sparseCloneDocs_eq.
  destruct (attempt W n) as [[[]|e|c] s] eqn:Hatt.
  - destruct (exists_path (tempDir W) (fs s)); cbn [andb]; [|by eexists].
    destruct (fault W (CRm (tempDir W)) (fs s)); by eexists.
  - done.
  - by apply attempt_never_exits in Hatt.
Qed.

(** C10 as stated fails: every step of the [try] block succeeds, the
    operating system refuses the removal of the temporary directory, the
    promise is rejected, and the [.catch] handler of the runner runs. *)
Lemma rejected_promise_reaches_runner :
  let W := sim_world 5 (Some guide_docs) [] [CRm ["tmp"; "intern3-docs-clone-5"]] in
  (call_sparseCloneDocs W bare_disk).1
  = Thrown (FsError (CRm ["tmp"; "intern3-docs-clone-5"]))
  ∧ (run W bare_disk).1 = Exited 1
  ∧ last (trace (run W bare_disk).2)
    = Some (script_failed_line (FsError (CRm ["tmp"; "intern3-docs-clone-5"]))).
Proof. cbv zeta. repeat split; vm_compute; reflexivity. Qed.

(* ===================================================================== *)
(** * What a run leaves alone *)
(* ===================================================================== *)

Lemma apart_siblings (p : path) (a b : string) : a ≠ b → apart (p ++ [a]) (p ++ [b]).
Proof.
  intros Hab. split; intros H%prefix_app_inv; destruct H as [k Hk]; simplify_eq/=.
Qed.

Lemma cp_tree_lookup_apart src dst r n n' :
  cp_tree src dst n = Some n' → apart dst r → lookup_path r n' = lookup_path r n.
Proof.
  unfold cp_tree. intros Hcp Hap.
  destruct (lookup_path src n) as [s|]; [|done].
  case_bool_decide; [done|].
  destruct (mkdirp (parent dst) n) as [n1|] eqn:Hmk; [|done].
  assert (lookup_path r n1 = lookup_path r n) as <-.
  { apply (mkdirp_lookup _ _ _ _ Hmk). intros Hr. apply (proj2 Hap).
    trans (parent dst); [done|]. unfold parent.
    destruct (decide (dst = [])) as [->|Hne]; [done|].
    destruct (exists_last Hne) as (l & a & ->).
    rewrite removelast_last. by apply prefix_app_r. }
  destruct (lookup_path dst n1) as [d|].
  - destruct (merge s d) as [m|]; [|done]. by eapply put_lookup_apart.
  - by eapply put_lookup_apart.
Qed.

Section Keeps.

Context {A B : Type} (r : path).

Lemma keeps_ret (a : A) : keeps r (mret a).
Proof. by intros s. Qed.

Lemma keeps_bind (m : M A) (f : A → M B) :
  keeps r m → (∀ a, keeps r (f a)) → keeps r (m ≫= f).
Proof.
  intros Hm Hf s. cbv [mbind M_bind bind]. specialize (Hm s).
  destruct (m s) as [[a|e|c] s1]; cbn [snd] in *; [|done..].
  by rewrite Hf.
Qed.

Lemma keeps_throw (e : error) : keeps r (throw (A:=A) e).
Proof. by intros s. Qed.

Lemma keeps_process_exit (c : Z) : keeps r (process_exit (A:=A) c).
Proof. by intros s. Qed.

Lemma keeps_try_catch (m : M A) (h : error → M A) :
  keeps r m → (∀ e, keeps r (h e)) → keeps r (try_catch m h).
Proof.
  intros Hm Hh s. unfold try_catch. specialize (Hm s).
  destruct (m s) as [[a|e|c] s1]; cbn [snd] in *; [done| |done].
  by rewrite Hh.
Qed.

Lemma keeps_try_finally (m : M A) (k : M unit) :
  keeps r m → keeps r k → keeps r (try_finally m k).
Proof.
  intros Hm Hk s. unfold try_finally. specialize (Hm s).
  destruct (m s) as [[a|e|c] s1]; cbn [snd] in *; [| |done].
  all: specialize (Hk s1); destruct (k s1) as [[[]|e1|c1] s2]; cbn [snd] in *;
    congruence.
Qed.

End Keeps.

Section KeepsScript.

Context (W : World) (r : path).

Lemma keeps_console_log args : keeps r (console_log args).
Proof. by intros s. Qed.

Lemma keeps_console_error args : keeps r (console_error args).
Proof. by intros s. Qed.

Lemma keeps_date_now : keeps r (date_now W).
Proof. by intros s. Qed.

Lemma keeps_existsSync p : keeps r (existsSync p).
Proof. by intros s. Qed.

Lemma keeps_execSync cmd d : leaves_alone W r → keeps r (execSync W cmd d).
Proof.
  intros Hframe s. unfold execSync. specialize (Hframe cmd d (fs s)).
  by destruct (exec W cmd d (fs s)) as [n [out|]].
Qed.

Lemma keeps_fs_call c effect :
  (∀ n n', effect n = Some n' → lookup_path r n' = lookup_path r n) →
  keeps r (fs_call W c effect).
Proof.
  intros Heff s. unfold fs_call.
  destruct (fault W c (fs s)); [done|].
  destruct (effect (fs s)) as [n'|] eqn:He; [|done]. by apply Heff.
Qed.

Lemma keeps_rmSync p : apart p r → keeps r (rmSync W p).
Proof.
  intros Hap. apply keeps_fs_call. intros n n' [= <-].
  by apply rm_path_lookup_apart.
Qed.

Lemma keeps_mkdirSync p : ¬ r `prefix_of` p → keeps r (mkdirSync W p).
Proof. intros Hr. apply keeps_fs_call. intros n n' Hmk. by eapply mkdirp_lookup. Qed.

Lemma keeps_cpSync src dst : apart dst r → keeps r (cpSync W src dst).
Proof. intros Hap. apply keeps_fs_call. intros n n' Hcp. by eapply cp_tree_lookup_apart. Qed.

Ltac keeps_step :=
  match goal with
  | |- keeps _ (_ ≫= _) => apply keeps_bind; [|intros ?]
  | |- keeps _ (if ?b then _ else _) => destruct b
  | |- keeps _ (try_catch _ _) => apply keeps_try_catch; [|intros ?]
  | |- keeps _ (try_finally _ _) => apply keeps_try_finally
  | |- keeps _ (console_log _) => apply keeps_console_log
  | |- keeps _ (console_error _) => apply keeps_console_error
  | |- keeps _ (existsSync _) => apply keeps_existsSync
  | |- keeps _ (execSync _ _ _) => apply keeps_execSync
  | |- keeps _ (rmSync _ _) => apply keeps_rmSync
  | |- keeps _ (mkdirSync _ _) => apply keeps_mkdirSync
  | |- keeps _ (cpSync _ _ _) => apply keeps_cpSync
  | |- keeps _ (date_now _) => apply keeps_date_now
  | |- keeps _ (mret _) => apply keeps_ret
  | |- keeps _ (ret _) => apply (keeps_ret (A:=unit))
  | |- keeps _ (throw _) => apply keeps_throw
  | |- keeps _ (process_exit _) => apply keeps_process_exit
  end.

Lemma keeps_body :
  leaves_alone W r →
  apart (TARGET_DOCS_DIR W) r →
  apart (tempDir W) r →
  keeps r (try_catch_finally (try_body W (tempDir W)) catch_handler
             (cleanup W (tempDir W))).
Proof.
  intros Hframe Htarget Htemp.
  assert (¬ r `prefix_of` CONTENT_DIR W) as Hcontent.
  { intros H. apply (proj2 Htarget). trans (CONTENT_DIR W); [done|].
    rewrite target_in_content. by apply prefix_app_r. }
  unfold try_catch_finally, try_body, catch_handler, cleanup, clear_target,
    clone_steps, list_checked_out, copy_steps, list_target.
  repeat keeps_step; done.
Qed.

(** The script writes at the target, at its parent and at the temporary
    directory, and nowhere else. *)
Lemma keeps_main :
  leaves_alone W r →
  apart (TARGET_DOCS_DIR W) r →
  apart (tempDir W) r →
  keeps r (main W).
Proof.
  intros Hframe Htarget Htemp.
  pose proof (keeps_body Hframe Htarget Htemp) as Hbody.
  unfold main. apply keeps_try_catch; [|intros e; repeat keeps_step].
  apply keeps_bind; [|intros []; apply keeps_console_log].
  intros s. unfold sparseCloneDocs. cbv [mbind M_bind bind date_now].
  change (temp_dir_at W (now W)) with (tempDir W).
  apply (Hbody (emit (EvCall CNow true) s)).
Qed.

End KeepsScript.

(** X3.  A run, however it ends, leaves what is at a path as it was, when
    the path lies apart from the target and from the temporary directory
    and the external commands leave it alone: the script itself writes at
    the target, at its parent and at the temporary directory only. *)
Theorem run_leaves_the_rest_alone W n r :
  leaves_alone W r →
  apart (TARGET_DOCS_DIR W) r →
  apart (tempDir W) r →
  lookup_path r (fs (run W n).2) = lookup_path r n.
Proof. intros Hframe Htarget Htemp. apply (keeps_main W r Hframe Htarget Htemp (init n)). Qed.

(** A folder beside the docs in [content] is as before after a run. *)
Lemma run_leaves_the_rest_alone_witness :
  lookup_path ["site"; "content"; "blog"]
    (fs (run (sim_world 5 (Some guide_docs) [] []) blog_disk).2)
  = lookup_path ["site"; "content"; "blog"] blog_disk.
Proof.
  apply (run_leaves_the_rest_alone (sim_world 5 (Some guide_docs) [] []) blog_disk
           ["site"; "content"; "blog"]).
  - intros cmd dir n. apply sim_exec_leaves_site_alone.
  - split; intros [k Hk]; discriminate Hk.
  - by apply apart_heads.
Defined.

(** X4.  A temporary directory that a run with another clock reading left
    behind is as before after a run, however it ends: a run removes its
    own temporary directory only. *)
Theorem leftover_temp_dir_stays W1 W2 n :
  tmpdir W1 = tmpdir W2 →
  now W1 ≠ now W2 →
  leaves_alone W2 (tempDir W1) →
  apart (TARGET_DOCS_DIR W2) (tempDir W1) →
  lookup_path (tempDir W1) (fs (run W2 n).2) = lookup_path (tempDir W1) n.
Proof.
  intros Htmp Hnow Hframe Htarget.
  apply (keeps_main W2 (tempDir W1) Hframe Htarget).
  unfold tempDir, temp_dir_at, join. rewrite Htmp.
  apply apart_siblings. intros H. by apply Hnow, temp_name_inj.
Qed.

(** The temporary directory a failed run left is there after the next
    run. *)
Lemma leftover_temp_dir_stays_witness :
  let n := (run (sim_world 5 None [] []) bare_disk).2 in
  exists_path ["tmp"; "intern3-docs-clone-5"] (fs n) = true
  ∧ lookup_path ["tmp"; "intern3-docs-clone-5"] (fs (run (offline_world 6) (fs n)).2)
    = lookup_path ["tmp"; "intern3-docs-clone-5"] (fs n).
Proof.
  cbv zeta. split; [vm_compute; reflexivity|].
  apply (leftover_temp_dir_stays (sim_world 5 None [] []) (offline_world 6)).
  - reflexivity.
  - discriminate.
  - intros cmd dir m. reflexivity.
  - by apply apart_heads.
Defined.

(* ===================================================================== *)
(** * The temporary directory after a run that ends normally *)
(* ===================================================================== *)

(** X1.  When the function ends normally (its promise is fulfilled), and
    so when the script ends with status 0, the temporary directory of the
    run is not there, in every world and on every disk. *)
Theorem normal_end_leaves_no_temp_dir W n :
  (∀ s, call_sparseCloneDocs W n = (Normal (), s) →
        exists_path (tempDir W) (fs s) = false)
  ∧ (∀ s, run W n = (Normal (), s) → exists_path (tempDir W) (fs s) = false).
Proof.
  assert (∀ s, call_sparseCloneDocs W n = (Normal (), s) →
               exists_path (tempDir W) (fs s) = false) as Hcall.
  { intros s. rewrite call_sparseCloneDocs_eq.
    destruct (attempt W n) as [[[]|e|c] s1]; [|done..].
    destruct (exists_path (tempDir W) (fs s1)) eqn:Htemp.
    - cbv zeta. destruct (fault W (CRm (tempDir W)) (fs s1)); [done|].
      intros H. simplify_eq. cbn [fs].
      apply exists_path_false, rm_path_lookup_self, tempDir_not_root.
    - intros H. by simplify_eq. }
  split; [done|].
  intros s. rewrite run_eq.
  destruct (call_sparseCloneDocs W n) as [[[]|e|c] s1] eqn:Hc; [|done..].
  intros H. simplify_eq. cbn [fs emit]. by apply Hcall.
Qed.

(** A temporary directory that was there before the run is gone as
    well. *)
Lemma normal_end_leaves_no_temp_dir_witness :
  exists_path ["tmp"; "intern3-docs-clone-5"]
    (fs (run (sim_world 5 (Some guide_docs) [] []) occupied_disk).2) = false.
Proof.
  apply (proj2 (normal_end_leaves_no_temp_dir (sim_world 5 (Some guide_docs) [] []) occupied_disk)).
  vm_compute. reflexivity.
Defined.

(* ===================================================================== *)
(** * The target after a run that fails *)
(* ===================================================================== *)

(** A run that does not reach the copy, after a removal of the target
    that was not refused, ends without a target. *)
Lemma unreached_copy_target_absent W n :
  leaves_alone W (TARGET_DOCS_DIR W) →
  fault W (CRm (TARGET_DOCS_DIR W)) n = false →
  existsb is_cp_call (trace (run W n).2) = false →
  lookup_path (TARGET_DOCS_DIR W) (fs (run W n).2) = None
  ∧ exit_status (run W n).1 = 1.
Proof.
  intros Hframe Hfault. run_cases (run W n).
  all: cbn [existsb is_cp_call orb]; intros Hcopy; try discriminate Hcopy.
  all: try discriminate Hfault.
  all: split; [|reflexivity].
  all: frame_facts Hframe.
  all: try apply exists_path_false in Hexists.
  all: pose proof (rm_path_lookup_self _ n (target_not_root W)).
  all: try (apply (mkdirp_lookup _ (TARGET_DOCS_DIR W)) in Hmkdir;
            [|apply target_not_above_content]).
  all: congruence.
Qed.

(** X2.  The target is removed before the clone and not restored: when
    the external commands leave the target alone and the removal of the
    target is not refused, a run that ends before [cpSync] is called
    exits with status 1 and leaves no target, whatever was there
    before. *)
Theorem failed_run_leaves_no_target W n :
  leaves_alone W (TARGET_DOCS_DIR W) →
  fault W (CRm (TARGET_DOCS_DIR W)) n = false →
  existsb is_cp_call (trace (run W n).2) = false →
  exists_path (TARGET_DOCS_DIR W) (fs (run W n).2) = false
  ∧ exit_status (run W n).1 = 1.
Proof.
  intros Hframe Hfault Hcopy. rewrite exists_path_false.
  by apply unreached_copy_target_absent.
Qed.

(** A stale target is lost when the checkout fails. *)
Lemma failed_run_leaves_no_target_witness :
  exists_path ["site"; "content"; "docs"] stale_disk = true
  ∧ exists_path ["site"; "content"; "docs"]
      (fs (run (sim_world 5 (Some guide_docs) [checkout_cmd] []) stale_disk).2) = false.
Proof.
  split; [vm_compute; reflexivity|].
  apply (failed_run_leaves_no_target (sim_world 5 (Some guide_docs) [checkout_cmd] []) stale_disk).
  - apply sim_world_leaves_alone.
  - reflexivity.
  - vm_compute. reflexivity.
Defined.

(* ===================================================================== *)
(** * What is printed *)
(* ===================================================================== *)

(** X5.  The script calls [console.error] in no successful run and once
    in every failed run: the [.catch] handler of the runner never repeats
    an error that the [catch] block of the function printed. *)
Theorem error_is_printed_once W n :
  length (stderr (trace (run W n).2))
  = if succeeded (trace (run W n).2) then 0%nat else 1%nat.
Proof.
  run_cases (run W n).
  all: cbn [succeeded existsb forallb is_copy essential_ok andb orb length];
    rewrite ?clone_not_diagnostic; reflexivity.
Qed.

Lemma count_newlines_nonneg s : 0 ≤ count_newlines s.
Proof. induction s as [|a s IH]; cbn; [done|]. destruct (Ascii.eqb a _); lia. Qed.

Lemma ltrim_blank s : blank s = true → ltrim s = EmptyString.
Proof.
  induction s as [|a s IH]; [done|]. cbn.
  destruct (Ascii.is_space a); [|done]. by intros H%IH.
Qed.

(** X6.  The number of files that the script prints for a listing is the
    number of lines of the trimmed output, which is at least 1: for an
    output of white space only, as of an empty listing, it is 1. *)
Theorem file_count_is_never_zero s :
  1 ≤ split_length (trim s)
  ∧ (blank s = true → split_length (trim s) = 1).
Proof.
  split.
  - unfold split_length. pose proof (count_newlines_nonneg (trim s)). lia.
  - intros Hb. unfold trim. by rewrite (ltrim_blank _ Hb).
Qed.

(** The empty output counts as one file. *)
Lemma file_count_is_never_zero_witness :
  split_length (trim EmptyString) = 1.
Proof. apply (proj2 (file_count_is_never_zero EmptyString)). reflexivity. Defined.
